(** * The [optional] package: a generic Optional[T] container

    A shallow embedding of [optional.go].  The Go struct becomes a record,
    the panicking accessors return an [outcome], callbacks run in a small
    state monad (so that "the callback is not invoked" is a statement about
    the world the callback may touch), and the deserialization method, which
    mutates its receiver, returns the receiver's new contents together with
    Go's [error] result.

    The element type [T] is generic in the source ([T any]).  What the
    package asks of it goes through the Go runtime and two standard
    packages: the zero value of [T], [fmt.Sprintf("%v", _)],
    [json.Marshal] and [json.Unmarshal].  They are interfaces here (type
    classes); instances for Go's [int] and [[]int] follow the package. *)

From Stdlib Require Import String Ascii ZArith List Bool Lia.
From Stdlib Require Import DecimalString DecimalPos DecimalZ.
Import ListNotations.

Local Open Scope string_scope.

(** ** What the package imports *)

(** The zero value of a Go type: what [var x T] holds, and what the
    [value] field of [Optional[T]{present: false}] holds. *)
Class Zero (T : Type) := zero : T.

(** [fmt.Sprintf("%v", v)]. *)
Class Formatter (T : Type) := Sprintf_v : T -> string.

(** The concrete error values [encoding/json] hands out. *)
Inductive error_value : Type :=
| SyntaxError
| UnmarshalTypeError (Value : string) (Type_ : string).

(** Go's [error] interface: [nil], or an error value. *)
Definition error : Type := option error_value.

Definition nil_error : error := None.

Definition is_nil (err : error) : bool :=
  match err with
  | None => true
  | Some _ => false
  end.

(** [json.Marshal(v)] returns [([]byte, error)]; [json.Unmarshal(data, &x)]
    reads and writes the variable behind the pointer and returns an
    [error]: it takes the variable's contents and gives back the new
    contents.  A []byte is a [string] (a sequence of 8-bit characters). *)
Class JSON (T : Type) := {
  json_Marshal : T -> string * error;
  json_Unmarshal : string -> T -> T * error
}.

(** A call either returns or panics with the value given to [panic]. *)
Inductive outcome (A : Type) : Type :=
| Returns (a : A)
| Panics (v : string).
Arguments Returns {A} a.
Arguments Panics {A} v.

(** Callbacks are Go closures: they may read and write state of their own
    (the tests count calls in a captured variable).  [Eff W A] is a
    computation over such a world [W]. *)
Definition Eff (W A : Type) : Type := W -> A * W.

Definition ret {W A : Type} (a : A) : Eff W A := fun w => (a, w).

Definition bind {W A B : Type} (c : Eff W A) (k : A -> Eff W B) : Eff W B :=
  fun w => let (a, w') := c w in k a w'.

Declare Scope eff_scope.
Delimit Scope eff_scope with eff.
Notation "x <- c ;; k" := (bind c (fun x => k))
  (at level 61, c at next level, right associativity) : eff_scope.

(** ** The package *)

Module optional.

(** [type Optional[T any] struct { value T; present bool }] *)
Record Optional (T : Type) : Type := mkOptional {
  value : T;
  present : bool
}.
Arguments mkOptional {T} value present.
Arguments value {T} o.
Arguments present {T} o.

Section Package.

Context {T : Type} {ZT : Zero T}.

Definition Some (v : T) : Optional T :=
  {| value := v; present := true |}.

Definition None : Optional T :=
  {| value := zero; present := false |}.

Definition IsPresent (o : Optional T) : bool := present o.

Definition IsEmpty (o : Optional T) : bool := negb (present o).

Definition Get (o : Optional T) : outcome T :=
  if negb (present o) then Panics "called Get() on empty Optional"
  else Returns (value o).

Definition Or (o other : Optional T) : Optional T :=
  if present o then o else other.

Definition OrElsePanic (o : Optional T) (message : string) : outcome T :=
  if negb (present o) then Panics message
  else Returns (value o).

Definition OrElse (o : Optional T) (defaultValue : T) : T :=
  if present o then value o else defaultValue.

Section Callbacks.

Context {W : Type}.
Local Open Scope eff_scope.

Definition OrElseGet (o : Optional T) (supplier : Eff W T) : Eff W T :=
  if present o then ret (value o) else supplier.

Definition IfPresent (o : Optional T) (consumer : T -> Eff W unit)
  : Eff W unit :=
  if present o then consumer (value o) else ret tt.

Definition IfPresentOrElse (o : Optional T) (consumer : T -> Eff W unit)
    (runnable : Eff W unit) : Eff W unit :=
  if present o then consumer (value o) else runnable.

(** [o.present && predicate(o.value)]: [&&] evaluates its right operand
    only when the left one is true. *)
Definition Filter (o : Optional T) (predicate : T -> Eff W bool)
  : Eff W (Optional T) :=
  if present o then
    keep <- predicate (value o) ;;
    if keep then ret o else ret None
  else ret None.

End Callbacks.

Section Display.

Context {FT : Formatter T}.

Definition Equals (o other : Optional T) : bool :=
  if negb (Bool.eqb (present o) (present other)) then false
  else if negb (present o) then true
  else String.eqb (Sprintf_v (value o)) (Sprintf_v (value other)).

(** [fmt.Sprintf("Some(%v)", o.value)] *)
Definition String (o : Optional T) : string :=
  if present o then "Some(" ++ Sprintf_v (value o) ++ ")"
  else "None".

End Display.

Section Serialization.

Context {JT : JSON T}.

Definition MarshalJSON (o : Optional T) : string * error :=
  if present o then json_Marshal (value o)
  else ("null", nil_error).

(** The receiver is a pointer: the method returns what the receiver holds
    afterwards, and the error. *)
Definition UnmarshalJSON (o : Optional T) (data : string)
  : Optional T * error :=
  if String.eqb data "null" then
    ({| value := value o; present := false |}, nil_error)
  else
    let (v, err) := json_Unmarshal data zero in
    if negb (is_nil err) then (o, err)
    else ({| value := v; present := true |}, nil_error).

End Serialization.

End Package.

Arguments None T {ZT}.

Section Transformations.

Context {T U R W : Type} {ZU : Zero U} {ZR : Zero R}.
Local Open Scope eff_scope.

Definition Zip (opt1 : Optional T) (opt2 : Optional U)
    (combiner : T -> U -> Eff W R) : Eff W (Optional R) :=
  if present opt1 && present opt2 then
    r <- combiner (value opt1) (value opt2) ;; ret (Some r)
  else ret (None R).

Definition Map (opt : Optional T) (mapper : T -> Eff W U)
  : Eff W (Optional U) :=
  if present opt then u <- mapper (value opt) ;; ret (Some u)
  else ret (None U).

Definition FlatMap (opt : Optional T) (mapper : T -> Eff W (Optional U))
  : Eff W (Optional U) :=
  if present opt then mapper (value opt)
  else ret (None U).

End Transformations.

(** Pointers.  A [*T] is [nil] or the address of a variable of type [T]:
    a variable of its own, or the [value] field of a variable of type
    [Optional[T]].  Memory holds both kinds of variables, by number. *)
Inductive location : Type :=
| var_at (a : nat)
| value_of (a : nat).

Definition pointer : Type := option location.

Record memory (T : Type) : Type := mkMemory {
  variables : nat -> T;
  optionals : nat -> Optional T
}.
Arguments mkMemory {T} variables optionals.
Arguments variables {T} m a.
Arguments optionals {T} m a.

Section Pointers.

Context {T : Type} {ZT : Zero T}.

(** [*l] *)
Definition load (m : memory T) (l : location) : T :=
  match l with
  | var_at a => variables m a
  | value_of a => value (optionals m a)
  end.

(** [*l = x] *)
Definition store (m : memory T) (l : location) (x : T) : memory T :=
  match l with
  | var_at a =>
      {| variables := fun b => if Nat.eqb a b then x else variables m b;
         optionals := optionals m |}
  | value_of a =>
      {| variables := variables m;
         optionals := fun b =>
           if Nat.eqb a b
           then {| value := x; present := present (optionals m a) |}
           else optionals m b |}
  end.

Definition FromPointer (m : memory T) (ptr : pointer) : Optional T :=
  match ptr with
  | Datatypes.None => None T
  | Datatypes.Some l => Some (load m l)
  end.

(** The receiver is the [Optional[T]] variable number [o]; the result is
    [&o.value]. *)
Definition ToPointer (m : memory T) (o : nat) : pointer :=
  if negb (present (optionals m o)) then Datatypes.None
  else Datatypes.Some (value_of o).

(** [*o = opt] for the [Optional[T]] variable number [o]. *)
Definition assign (m : memory T) (o : nat) (opt : Optional T) : memory T :=
  {| variables := variables m;
     optionals := fun b => if Nat.eqb o b then opt else optionals m b |}.

End Pointers.

End optional.

(** ** Element types

    Two instances of the interfaces above, for Go's [int] and [[]int],
    written after the documentation of [fmt], [strconv] and
    [encoding/json].  The package itself never looks inside them. *)

(** *** JSON texts *)

Module json.

#[warnings="-register-all"]
Inductive value : Type :=
| Null
| Bool (b : bool)
| Number (lit : string)
| Str (raw : string)
| Array (elems : list value)
| Object (members : list (string * value)).

Definition is_space (c : ascii) : bool :=
  match c with
  | " " | "009" | "010" | "013" => true
  | _ => false
  end%char.

Definition is_digit (c : ascii) : bool :=
  match c with
  | "0" | "1" | "2" | "3" | "4" | "5" | "6" | "7" | "8" | "9" => true
  | _ => false
  end%char.

Definition is_hex (c : ascii) : bool :=
  is_digit c ||
  match c with
  | "a" | "b" | "c" | "d" | "e" | "f"
  | "A" | "B" | "C" | "D" | "E" | "F" => true
  | _ => false
  end%char.

Definition quote : ascii := "034"%char.

Definition backslash : ascii := "092"%char.

Definition is_escape (c : ascii) : bool :=
  Ascii.eqb c quote || Ascii.eqb c backslash ||
  match c with
  | "/" | "b" | "f" | "n" | "r" | "t" => true
  | _ => false
  end%char.

Definition is_control (c : ascii) : bool := (nat_of_ascii c <? 32)%nat.

(** What a number literal may start with. *)
Definition number_start (c : ascii) : bool := Ascii.eqb c "-" || is_digit c.

Fixpoint skip_space (s : string) : string :=
  match s with
  | String c rest => if is_space c then skip_space rest else s
  | EmptyString => s
  end.

(** The longest prefix of digits, and what follows it. *)
Fixpoint scan_digits (s : string) : string * string :=
  match s with
  | String c rest =>
      if is_digit c then
        let (ds, r) := scan_digits rest in (String c ds, r)
      else ("", s)
  | EmptyString => ("", "")
  end.

Definition scan_sign (minus_only : bool) (s : string) : string * string :=
  match s with
  | String c rest =>
      if Ascii.eqb c "-" || (negb minus_only && Ascii.eqb c "+")
      then (String c "", rest) else ("", s)
  | EmptyString => ("", s)
  end.

Definition scan_int_part (s : string) : option (string * string) :=
  match s with
  | String c rest =>
      if Ascii.eqb c "0" then Some ("0", rest)
      else if is_digit c then
        let (ds, r) := scan_digits rest in Some (String c ds, r)
      else None
  | EmptyString => None
  end.

Definition scan_frac (s : string) : option (string * string) :=
  match s with
  | String "." rest =>
      match scan_digits rest with
      | ("", _) => None
      | (ds, r) => Some (String "." ds, r)
      end
  | _ => Some ("", s)
  end.

Definition scan_exp (s : string) : option (string * string) :=
  match s with
  | String c rest =>
      if Ascii.eqb c "e" || Ascii.eqb c "E" then
        let (sg, r1) := scan_sign false rest in
        match scan_digits r1 with
        | ("", _) => None
        | (ds, r2) => Some (String c (sg ++ ds), r2)
        end
      else Some ("", s)
  | EmptyString => Some ("", s)
  end.

(** A number literal: an optional minus sign, then 0 or a digit 1-9 and
    more digits, then an optional fraction (a dot and one digit or more),
    then an optional exponent (e or E, an optional sign, one digit or
    more). *)
Definition scan_number (s : string) : option (string * string) :=
  let (sg, r0) := scan_sign true s in
  match scan_int_part r0 with
  | None => None
  | Some (ip, r1) =>
      match scan_frac r1 with
      | None => None
      | Some (fp, r2) =>
          match scan_exp r2 with
          | None => None
          | Some (ep, r3) => Some (sg ++ ip ++ fp ++ ep, r3)
          end
      end
  end.

(** A string literal after its opening quote: the raw text up to the
    closing quote, escapes left as written. *)
Fixpoint scan_string (s : string) : option (string * string) :=
  match s with
  | EmptyString => None
  | String c rest =>
      if Ascii.eqb c quote then Some ("", rest)
      else if Ascii.eqb c backslash then
        match rest with
        | String e rest1 =>
            if is_escape e then
              match scan_string rest1 with
              | Some (raw, r) => Some (String c (String e raw), r)
              | None => None
              end
            else if Ascii.eqb e "u" then
              match rest1 with
              | String h1 (String h2 (String h3 (String h4 rest2))) =>
                  if is_hex h1 && is_hex h2 && is_hex h3 && is_hex h4 then
                    match scan_string rest2 with
                    | Some (raw, r) =>
                        Some (String c (String e (String h1 (String h2
                                (String h3 (String h4 raw))))), r)
                    | None => None
                    end
                  else None
              | _ => None
              end
            else None
        | EmptyString => None
        end
      else if is_control c then None
      else
        match scan_string rest with
        | Some (raw, r) => Some (String c raw, r)
        | None => None
        end
  end.

Definition scan_word (w : string) (v : value) (s : string)
  : option (value * string) :=
  if String.prefix w s
  then Some (v, String.substring (String.length w)
                  (String.length s - String.length w) s)
  else None.

Fixpoint parse_value (fuel : nat) (s : string) : option (value * string) :=
  match fuel with
  | O => None
  | S fuel' =>
      match skip_space s with
      | EmptyString => None
      | String c rest as s' =>
          if Ascii.eqb c "n" then scan_word "null" Null s'
          else if Ascii.eqb c "t" then scan_word "true" (Bool true) s'
          else if Ascii.eqb c "f" then scan_word "false" (Bool false) s'
          else if Ascii.eqb c quote then
            match scan_string rest with
            | Some (raw, r) => Some (Str raw, r)
            | None => None
            end
          else if number_start c then
            match scan_number s' with
            | Some (lit, r) => Some (Number lit, r)
            | None => None
            end
          else if Ascii.eqb c "[" then
            match skip_space rest with
            | String "]" r => Some (Array [], r)
            | _ =>
                match parse_elems fuel' rest with
                | Some (vs, r) => Some (Array vs, r)
                | None => None
                end
            end
          else if Ascii.eqb c "{" then
            match skip_space rest with
            | String "}" r => Some (Object [], r)
            | _ =>
                match parse_members fuel' rest with
                | Some (ms, r) => Some (Object ms, r)
                | None => None
                end
            end
          else None
      end
  end

with parse_elems (fuel : nat) (s : string)
  : option (list value * string) :=
  match fuel with
  | O => None
  | S fuel' =>
      match parse_value fuel' s with
      | None => None
      | Some (v, r) =>
          match skip_space r with
          | String "]" r' => Some ([v], r')
          | String "," r' =>
              match parse_elems fuel' r' with
              | Some (vs, r'') => Some (v :: vs, r'')
              | None => None
              end
          | _ => None
          end
      end
  end

with parse_members (fuel : nat) (s : string)
  : option (list (string * value) * string) :=
  match fuel with
  | O => None
  | S fuel' =>
      match skip_space s with
      | String c r0 =>
          match (if Ascii.eqb c quote then scan_string r0 else None) with
          | None => None
          | Some (key, r1) =>
              match skip_space r1 with
              | String ":" r2 =>
                  match parse_value fuel' r2 with
                  | None => None
                  | Some (v, r3) =>
                      match skip_space r3 with
                      | String "}" r' => Some ([(key, v)], r')
                      | String "," r' =>
                          match parse_members fuel' r' with
                          | Some (ms, r'') => Some ((key, v) :: ms, r'')
                          | None => None
                          end
                      | _ => None
                      end
                  end
              | _ => None
              end
          end
      | _ => None
      end
  end.

(** The whole input is one JSON value between optional white space. *)
Definition parse (data : string) : option value :=
  match parse_value (2 * String.length data + 2) data with
  | Some (v, r) =>
      match skip_space r with
      | EmptyString => Some v
      | _ => None
      end
  | None => None
  end.

End json.

(** *** Go's [int] *)

Module strconv.

(** [strconv.Itoa]: the decimal text of an integer. *)
Definition Itoa (n : Z) : string := NilZero.string_of_int (Z.to_int n).

(** Whether [n] is a signed integer of [bitSize] bits. *)
Definition fits (bitSize n : Z) : bool :=
  ((- 2 ^ (bitSize - 1) <=? n) && (n <? 2 ^ (bitSize - 1)))%Z.

(** [strconv.ParseInt(s, 10, bitSize)]: an optional sign and decimal
    digits; a value that does not fit [bitSize] bits is an error. *)
Definition ParseInt (s : string) (bitSize : Z) : option Z :=
  let parsed :=
    match s with
    | String "+" r => option_map Decimal.Pos (NilZero.uint_of_string r)
    | String "-" r => option_map Decimal.Neg (NilZero.uint_of_string r)
    | _ => option_map Decimal.Pos (NilZero.uint_of_string s)
    end in
  match parsed with
  | Some d =>
      let n := Z.of_int d in
      if fits bitSize n then Some n else None
  | None => None
  end.

(** [strconv.Atoi(s)]: [ParseInt] in base 10 at the width of [int]. *)
Definition Atoi (s : string) : option Z := ParseInt s 64.

End strconv.

(** [int] has 64 bits on the platforms the package is built for; the
    package does no arithmetic on it, so the width only shows in what
    [json.Unmarshal] accepts. *)
Definition int : Type := Z.

Definition int_range (n : int) : Prop := (- 2 ^ 63 <= n < 2 ^ 63)%Z.

#[export] Instance Zero_int : Zero int := 0%Z.

(** [%v] prints an [int] in decimal. *)
#[export] Instance Formatter_int : Formatter int := strconv.Itoa.

(** What [json.Unmarshal] stores for one JSON value when the target is an
    [int]: [null] leaves the target alone, an integer literal that fits is
    stored, anything else is an [UnmarshalTypeError] and the target keeps
    its contents. *)
Definition decode_int (j : json.value) (cur : int) : int * error :=
  match j with
  | json.Null => (cur, nil_error)
  | json.Number lit =>
      match strconv.ParseInt lit 64 with
      | Some n => (n, nil_error)
      | None => (cur, Some (UnmarshalTypeError ("number " ++ lit) "int"))
      end
  | json.Bool _ => (cur, Some (UnmarshalTypeError "bool" "int"))
  | json.Str _ => (cur, Some (UnmarshalTypeError "string" "int"))
  | json.Array _ => (cur, Some (UnmarshalTypeError "array" "int"))
  | json.Object _ => (cur, Some (UnmarshalTypeError "object" "int"))
  end.

(** [json.Unmarshal] checks the whole input for syntax before it stores
    anything. *)
#[export] Instance JSON_int : JSON int := {|
  json_Marshal n := (strconv.Itoa n, nil_error);
  json_Unmarshal data cur :=
    match json.parse data with
    | None => (cur, Some SyntaxError)
    | Some j => decode_int j cur
    end
|}.

(** *** Go's [[]int] *)

(** A slice is [nil] or has elements, possibly none.  A nil slice and an
    empty one print alike, but [json.Marshal] tells them apart. *)
Inductive slice (A : Type) : Type :=
| nil_slice
| mk_slice (elems : list A).
Arguments nil_slice {A}.
Arguments mk_slice {A} elems.

#[export] Instance Zero_slice {A : Type} : Zero (slice A) := nil_slice.

Definition elems_of {A : Type} (s : slice A) : list A :=
  match s with
  | nil_slice => []
  | mk_slice l => l
  end.

(** [%v] prints the elements between brackets, separated by spaces. *)
#[export] Instance Formatter_slice_int : Formatter (slice int) :=
  fun s => "[" ++ String.concat " " (map strconv.Itoa (elems_of s)) ++ "]".

(** The elements of a JSON array go, in order, into the elements the
    slice already has and then into fresh zero elements; the first error
    is the one reported. *)
Fixpoint decode_elems (js : list json.value) (old : list int)
  : list int * error :=
  match js with
  | [] => ([], nil_error)
  | j :: js' =>
      let (x, e1) := decode_int j (hd zero old) in
      let (xs, e2) := decode_elems js' (tl old) in
      (x :: xs, if is_nil e1 then e2 else e1)
  end.

Definition decode_slice_int (j : json.value) (cur : slice int)
  : slice int * error :=
  match j with
  | json.Null => (nil_slice, nil_error)
  | json.Array js =>
      let (xs, e) := decode_elems js (elems_of cur) in (mk_slice xs, e)
  | json.Bool _ => (cur, Some (UnmarshalTypeError "bool" "[]int"))
  | json.Number _ => (cur, Some (UnmarshalTypeError "number" "[]int"))
  | json.Str _ => (cur, Some (UnmarshalTypeError "string" "[]int"))
  | json.Object _ => (cur, Some (UnmarshalTypeError "object" "[]int"))
  end.

#[export] Instance JSON_slice_int : JSON (slice int) := {|
  json_Marshal s :=
    match s with
    | nil_slice => ("null", nil_error)
    | mk_slice l =>
        ("[" ++ String.concat "," (map strconv.Itoa l) ++ "]", nil_error)
    end;
  json_Unmarshal data cur :=
    match json.parse data with
    | None => (cur, Some SyntaxError)
    | Some j => decode_slice_int j cur
    end
|}.

(** ** Notions used in the statements *)

(** Serialize, then deserialize what came out into [target]: the tests'
    "JSON roundtrip".  A failed [MarshalJSON] leaves [target] alone. *)
Definition roundtrip {T : Type} {ZT : Zero T} {JT : JSON T}
    (o target : optional.Optional T) : optional.Optional T * error :=
  let (data, err) := optional.MarshalJSON o in
  if negb (is_nil err) then (target, err)
  else optional.UnmarshalJSON target data.

(** A callback that counts its calls in the world, as the tests' closures
    do with a captured counter. *)
Definition counting {A B : Type} (f : A -> B) : A -> Eff nat B :=
  fun a calls => (f a, S calls).

Definition counting2 {A B C : Type} (f : A -> B -> C)
  : A -> B -> Eff nat C :=
  fun a b calls => (f a b, S calls).

(** The two Optionals the tests start from, [Some(42)] and [None[int]()]. *)
Definition some42 : optional.Optional int := optional.Some 42%Z.

Definition none_int : optional.Optional int := optional.None int.

(** The example program's [parseNumber]: [Some] of what [strconv.Atoi]
    reads, [None] when it returns an error. *)
Module example.

Definition parseNumber (s : string) : optional.Optional int :=
  match strconv.Atoi s with
  | Some num => optional.Some num
  | None => optional.None int
  end.

(** Standard output is the world: the texts written so far, one per call
    of [fmt.Printf]. *)
Definition Printf (text : string) : Eff (list string) unit :=
  fun out => (tt, (out ++ [text])%list).

Definition newline : string := String "010" "".

(** [fmt.Printf("Parsed '%s' as %d\n", input, num)] *)
Definition parsed_line (input : string) (num : int) : string :=
  "Parsed '" ++ input ++ "' as " ++ strconv.Itoa num ++ newline.

(** [fmt.Printf("Failed to parse '%s'\n", input)] *)
Definition failed_line (input : string) : string :=
  "Failed to parse '" ++ input ++ "'" ++ newline.

(** The body of the loop of [main] over the user inputs. *)
Definition report (input : string) : Eff (list string) unit :=
  let parsed := parseNumber input in
  bind (optional.IfPresent parsed
          (fun num => Printf (parsed_line input num)))
       (fun _ =>
          if optional.IsEmpty parsed then Printf (failed_line input)
          else ret tt).

(** [for _, input := range userInputs { ... }] *)
Fixpoint report_all (userInputs : list string) : Eff (list string) unit :=
  match userInputs with
  | [] => ret tt
  | input :: rest => bind (report input) (fun _ => report_all rest)
  end.

(** The line the loop is to write for one input. *)
Definition line_for (input : string) : string :=
  match strconv.Atoi input with
  | Some num => parsed_line input num
  | None => failed_line input
  end.

End example.

(** A supplier that counts its calls. *)
Definition counting0 {A : Type} (a : A) : Eff nat A :=
  fun calls => (a, S calls).

(** A consumer and a runnable that count their calls apart, in a world of
    two counters. *)
Definition tick_consumer {A : Type} : A -> Eff (nat * nat) unit :=
  fun _ w => (tt, (S (fst w), snd w)).

Definition tick_runnable : Eff (nat * nat) unit :=
  fun w => (tt, (fst w, S (snd w))).

(** All characters of a string are decimal digits. *)
Fixpoint all_digits (s : string) : bool :=
  match s with
  | EmptyString => true
  | String c rest => json.is_digit c && all_digits rest
  end.

(** A string without its sign, if it starts with one. *)
Definition unsigned_part (s : string) : string :=
  match s with
  | String c rest =>
      if Ascii.eqb c "+" || Ascii.eqb c "-" then rest else s
  | EmptyString => s
  end.

(** What may follow an element of a JSON array. *)
Definition delimiter (c : ascii) : bool :=
  Ascii.eqb c "," || Ascii.eqb c "]".

(** The JSON value [json.Marshal] writes for an [int]. *)
Definition number_of (v : Z) : json.value := json.Number (strconv.Itoa v).

(** A callback without effects. *)
Definition pure {W A B : Type} (f : A -> B) : A -> Eff W B :=
  fun a => ret (f a).

(** ** Strings *)

Lemma append_char_inj (s1 s2 : string) (c : ascii) :
  s1 ++ String c "" = s2 ++ String c "" -> s1 = s2.
Proof.
  revert s2.
  induction s1 as [| a s1 IH]; intros [| b s2]; simpl; intros E.
  - reflexivity.
  - injection E as _ E. destruct s2; discriminate E.
  - injection E as _ E. destruct s1; discriminate E.
  - injection E as -> E. f_equal. now apply IH.
Qed.

Lemma Some_text_inj (s1 s2 : string) :
  "Some(" ++ s1 ++ ")" = "Some(" ++ s2 ++ ")" -> s1 = s2.
Proof.
  simpl. intros E. injection E as E. now apply append_char_inj in E.
Qed.

(** ** Accessors *)

Section Accessors.

Context {T : Type}.

Lemma Get_present (o : optional.Optional T) :
  optional.present o = true -> optional.Get o = Returns (optional.value o).
Proof. unfold optional.Get. now intros ->. Qed.

Lemma Get_absent (o : optional.Optional T) :
  optional.present o = false ->
  optional.Get o = Panics "called Get() on empty Optional".
Proof. unfold optional.Get. now intros ->. Qed.

Lemma OrElsePanic_present (o : optional.Optional T) (message : string) :
  optional.present o = true ->
  optional.OrElsePanic o message = Returns (optional.value o).
Proof. unfold optional.OrElsePanic. now intros ->. Qed.

Lemma OrElsePanic_absent (o : optional.Optional T) (message : string) :
  optional.present o = false -> optional.OrElsePanic o message = Panics message.
Proof. unfold optional.OrElsePanic. now intros ->. Qed.

(** C4.  On a present Optional [Get] and [OrElsePanic] both return the
    contained value.  On an absent one both panic: [Get] with its fixed
    message, [OrElsePanic] with exactly the message the caller passed; so
    the two agree everywhere except in what the panic carries. *)
Theorem Get_OrElsePanic_spec (o : optional.Optional T) (message : string) :
  (optional.present o = true ->
     optional.Get o = Returns (optional.value o) /\
     optional.OrElsePanic o message = optional.Get o) /\
  (optional.present o = false ->
     optional.Get o = Panics "called Get() on empty Optional" /\
     optional.OrElsePanic o message = Panics message).
Proof.
  split; intros H.
  - now rewrite OrElsePanic_present, Get_present.
  - now rewrite OrElsePanic_absent, Get_absent.
Qed.

End Accessors.

(** ** Combinators *)

Section Combinators.

Context {T U R W : Type} {ZT : Zero T} {ZU : Zero U} {ZR : Zero R}.

Lemma Zip_both (a : optional.Optional T) (b : optional.Optional U)
    (f : T -> U -> Eff W R) (w : W) :
  optional.present a = true -> optional.present b = true ->
  optional.Zip a b f w =
    (optional.Some (fst (f (optional.value a) (optional.value b) w)),
     snd (f (optional.value a) (optional.value b) w)).
Proof.
  unfold optional.Zip, bind, ret. intros -> ->. simpl.
  now destruct (f _ _ w).
Qed.

Lemma Zip_either_absent (a : optional.Optional T) (b : optional.Optional U)
    (f : T -> U -> Eff W R) (w : W) :
  optional.present a = false \/ optional.present b = false ->
  optional.Zip a b f w = (optional.None R, w).
Proof.
  unfold optional.Zip. intros [-> | ->]; [| rewrite andb_false_r]; reflexivity.
Qed.

Lemma FlatMap_absent (o : optional.Optional T)
    (f : T -> Eff W (optional.Optional U)) (w : W) :
  optional.present o = false -> optional.FlatMap o f w = (optional.None U, w).
Proof. unfold optional.FlatMap. now intros ->. Qed.

Lemma Filter_absent (o : optional.Optional T) (p : T -> Eff W bool) (w : W) :
  optional.present o = false -> optional.Filter o p w = (optional.None T, w).
Proof. unfold optional.Filter. now intros ->. Qed.

Lemma Filter_present (o : optional.Optional T) (p : T -> Eff W bool) (w : W) :
  optional.present o = true ->
  optional.Filter o p w =
    (if fst (p (optional.value o) w) then o else optional.None T,
     snd (p (optional.value o) w)).
Proof.
  unfold optional.Filter, bind, ret. intros ->.
  now destruct (p _ w) as [[|] w'].
Qed.

End Combinators.

Section CombinatorClaims.

Context {T U R W : Type} {ZT : Zero T} {ZU : Zero U} {ZR : Zero R}.

(** C5.  [Zip a b f] is present exactly when [a] and [b] both are, and then
    it is [Some] of [f] applied to the two values, [f] having run once.
    When either is absent the result is [None] whatever the combiner, and
    the world is as it was: the combiner did not run.  With a combiner that
    counts its calls the count goes up by one in the first case and not at
    all in the second. *)
Theorem Zip_spec (a : optional.Optional T) (b : optional.Optional U)
    (f : T -> U -> Eff W R) (w : W) :
  (optional.present (fst (optional.Zip a b f w)) = true <->
     optional.present a = true /\ optional.present b = true) /\
  (optional.present a = true -> optional.present b = true ->
     optional.Zip a b f w =
       (optional.Some (fst (f (optional.value a) (optional.value b) w)),
        snd (f (optional.value a) (optional.value b) w))) /\
  (optional.present a = false \/ optional.present b = false ->
     forall g : T -> U -> Eff W R,
       optional.Zip a b g w = (optional.None R, w)) /\
  (forall (h : T -> U -> R) (calls : nat),
     snd (optional.Zip a b (counting2 h) calls) =
       if optional.present a && optional.present b then S calls else calls).
Proof.
  repeat split.
  - destruct (optional.present a) eqn:Ha; [reflexivity |].
    rewrite Zip_either_absent in H by now left. discriminate H.
  - destruct (optional.present b) eqn:Hb; [reflexivity |].
    rewrite Zip_either_absent in H by now right. discriminate H.
  - intros [Ha Hb]. now rewrite Zip_both.
  - apply Zip_both.
  - intros H g. now apply Zip_either_absent.
  - intros h calls.
    destruct (optional.present a) eqn:Ha, (optional.present b) eqn:Hb; simpl;
      solve [ now rewrite Zip_both
            | rewrite Zip_either_absent; auto ].
Qed.

(** C6.  [FlatMap] on [Some v] is the mapper's own result, as it is: the
    same Optional, present or absent, and the mapper's effects.  On an
    absent input it is [None] whatever the mapper, the world untouched and
    a counting mapper's count unchanged. *)
Theorem FlatMap_spec (v : T) (f : T -> Eff W (optional.Optional U))
    (o : optional.Optional T) (w : W) :
  optional.FlatMap (optional.Some v) f w = f v w /\
  (optional.present o = false ->
     (forall g : T -> Eff W (optional.Optional U),
        optional.FlatMap o g w = (optional.None U, w)) /\
     (forall (h : T -> optional.Optional U) (calls : nat),
        snd (optional.FlatMap o (counting h) calls) = calls)).
Proof.
  split; [reflexivity |].
  intros Ho. split.
  - intros g. now apply FlatMap_absent.
  - intros h calls. now rewrite FlatMap_absent.
Qed.

(** C7.  [Filter] hands back the receiver itself (same flag, same value)
    when it is present and the predicate says true, and [None] when it is
    present and the predicate says false or when it is absent.  On an
    absent receiver this holds whatever the predicate, the world untouched
    and a counting predicate's count unchanged. *)
Theorem Filter_spec (o : optional.Optional T) (p : T -> Eff W bool) (w : W) :
  (optional.present o = true -> fst (p (optional.value o) w) = true ->
     optional.Filter o p w = (o, snd (p (optional.value o) w))) /\
  (optional.present o = true -> fst (p (optional.value o) w) = false ->
     optional.Filter o p w =
       (optional.None T, snd (p (optional.value o) w))) /\
  (optional.present o = false ->
     (forall q : T -> Eff W bool,
        optional.Filter o q w = (optional.None T, w)) /\
     (forall (h : T -> bool) (calls : nat),
        snd (optional.Filter o (counting h) calls) = calls)).
Proof.
  repeat split.
  - intros Ho Hp. now rewrite Filter_present, Hp.
  - intros Ho Hp. now rewrite Filter_present, Hp.
  - intros q. now apply Filter_absent.
  - intros h calls. now rewrite Filter_absent.
Qed.

End CombinatorClaims.

(** ** Equality and display *)

Section Display.

Context {T : Type} {FT : Formatter T}.

Lemma Equals_absent (a b : optional.Optional T) :
  optional.present a = false -> optional.present b = false ->
  optional.Equals a b = true.
Proof. unfold optional.Equals. now intros -> ->. Qed.

Lemma Equals_mixed (a b : optional.Optional T) :
  optional.present a <> optional.present b -> optional.Equals a b = false.
Proof.
  unfold optional.Equals.
  destruct (optional.present a), (optional.present b); simpl; congruence.
Qed.

Lemma Equals_present (a b : optional.Optional T) :
  optional.present a = true -> optional.present b = true ->
  (optional.Equals a b = true <->
   Sprintf_v (optional.value a) = Sprintf_v (optional.value b)).
Proof.
  unfold optional.Equals. intros -> ->. simpl. apply String.eqb_eq.
Qed.

Lemma Equals_iff_String (a b : optional.Optional T) :
  optional.Equals a b = true <-> optional.String a = optional.String b.
Proof.
  unfold optional.String.
  destruct (optional.present a) eqn:Ha, (optional.present b) eqn:Hb.
  - rewrite Equals_present by assumption. split.
    + now intros ->.
    + apply Some_text_inj.
  - rewrite Equals_mixed by congruence. split; discriminate.
  - rewrite Equals_mixed by congruence. split; discriminate.
  - rewrite Equals_absent by assumption. now split.
Qed.

(** C8.  Two absent Optionals are equal; an absent and a present one are
    not; two present ones are equal exactly when their values are equal in
    the notion of equality the method uses for the element type, which is
    equality of what [%v] prints for them. *)
Theorem Equals_spec (a b : optional.Optional T) :
  (optional.present a = false -> optional.present b = false ->
     optional.Equals a b = true) /\
  (optional.present a <> optional.present b ->
     optional.Equals a b = false) /\
  (optional.present a = true -> optional.present b = true ->
     (optional.Equals a b = true <->
      Sprintf_v (optional.value a) = Sprintf_v (optional.value b))).
Proof.
  split; [| split].
  - apply Equals_absent.
  - apply Equals_mixed.
  - apply Equals_present.
Qed.

(** C10.  [Equals] holds exactly when the two Optionals print the same
    with [String].  Hence it is reflexive, symmetric and transitive, and
    two present Optionals whose values print alike are equal even when the
    values differ. *)
Theorem Equals_String_equivalence :
  (forall a b : optional.Optional T,
     optional.Equals a b = true <-> optional.String a = optional.String b) /\
  (forall a : optional.Optional T, optional.Equals a a = true) /\
  (forall a b : optional.Optional T,
     optional.Equals a b = true -> optional.Equals b a = true) /\
  (forall a b c : optional.Optional T,
     optional.Equals a b = true -> optional.Equals b c = true ->
     optional.Equals a c = true) /\
  (forall v w : T,
     Sprintf_v v = Sprintf_v w ->
     optional.Equals (optional.Some v) (optional.Some w) = true).
Proof.
  repeat split.
  - apply Equals_iff_String.
  - apply Equals_iff_String.
  - intros a. now apply Equals_iff_String.
  - intros a b. rewrite !Equals_iff_String. congruence.
  - intros a b c. rewrite !Equals_iff_String. congruence.
  - intros v w E. now apply Equals_present.
Qed.

End Display.

(** ** Serialization *)

Section Serialization.

Context {T : Type} {ZT : Zero T} {JT : JSON T}.

Lemma UnmarshalJSON_null (o : optional.Optional T) :
  optional.UnmarshalJSON o "null" =
    ({| optional.value := optional.value o; optional.present := false |},
     nil_error).
Proof. reflexivity. Qed.

Lemma UnmarshalJSON_other (o : optional.Optional T) (data : string) :
  data <> "null" ->
  optional.UnmarshalJSON o data =
    (let (v, err) := json_Unmarshal data zero in
     if negb (is_nil err) then (o, err)
     else ({| optional.value := v; optional.present := true |}, nil_error)).
Proof.
  intros Hd. unfold optional.UnmarshalJSON.
  destruct (String.eqb_spec data "null"); [contradiction | reflexivity].
Qed.

Lemma UnmarshalJSON_failure (o : optional.Optional T) (data : string)
    (partial : T) (e : error_value) :
  data <> "null" ->
  json_Unmarshal data zero = (partial, Some e) ->
  optional.UnmarshalJSON o data = (o, Some e).
Proof.
  intros Hd Hp. now rewrite UnmarshalJSON_other, Hp.
Qed.

Lemma UnmarshalJSON_success (o : optional.Optional T) (data : string)
    (v : T) :
  data <> "null" ->
  json_Unmarshal data zero = (v, nil_error) ->
  optional.UnmarshalJSON o data = (optional.Some v, nil_error).
Proof.
  intros Hd Hp. now rewrite UnmarshalJSON_other, Hp.
Qed.

Lemma MarshalJSON_Some (v : T) :
  optional.MarshalJSON (optional.Some v) = json_Marshal v.
Proof. reflexivity. Qed.

Lemma roundtrip_None (target : optional.Optional T) :
  roundtrip (optional.None T) target =
    ({| optional.value := optional.value target;
        optional.present := false |}, nil_error).
Proof. reflexivity. Qed.

(** C2, as the code has it.  Whatever the target held, deserializing
    [null] into it returns no error and leaves it absent.  The value field
    is not written: it keeps what it held, and no accessor gives that back,
    since [Get] panics, [OrElse] answers with the default, and the
    serialization is [null] again. *)
Theorem UnmarshalJSON_null_spec (o : optional.Optional T) (d : T) :
  let o' := fst (optional.UnmarshalJSON o "null") in
  snd (optional.UnmarshalJSON o "null") = nil_error /\
  optional.present o' = false /\
  optional.IsEmpty o' = true /\
  optional.value o' = optional.value o /\
  optional.Get o' = Panics "called Get() on empty Optional" /\
  optional.OrElse o' d = d /\
  optional.MarshalJSON o' = ("null", nil_error).
Proof. rewrite UnmarshalJSON_null. repeat split. Qed.

(** C3.  When the input is not [null] and [json.Unmarshal] rejects it for
    [T], [UnmarshalJSON] returns that very error value, not a wrapper
    around it, and makes nothing present: the receiver is not written, so a
    target that was absent is still absent, and what the parser may have
    stored before it failed is dropped. *)
Theorem UnmarshalJSON_propagates_error (o : optional.Optional T)
    (data : string) (partial : T) (e : error_value) :
  data <> "null" ->
  json_Unmarshal data zero = (partial, Some e) ->
  snd (optional.UnmarshalJSON o data) = snd (json_Unmarshal data zero) /\
  snd (optional.UnmarshalJSON o data) = Some e /\
  (optional.present o = false ->
     optional.IsPresent (fst (optional.UnmarshalJSON o data)) = false) /\
  optional.IsPresent (fst (optional.UnmarshalJSON o data)) =
    optional.IsPresent o.
Proof.
  intros Hd Hp. rewrite (UnmarshalJSON_failure o data partial e Hd Hp), Hp.
  simpl. auto.
Qed.

(** C9.  A failed deserialization is atomic: for input that is neither
    [null] nor acceptable for [T], [UnmarshalJSON] returns the parse error
    and the receiver holds afterwards exactly what it held before, flag and
    value. *)
Theorem UnmarshalJSON_failure_atomic (o : optional.Optional T)
    (data : string) (partial : T) (e : error_value) :
  data <> "null" ->
  json_Unmarshal data zero = (partial, Some e) ->
  optional.UnmarshalJSON o data = (o, Some e) /\
  optional.present (fst (optional.UnmarshalJSON o data)) =
    optional.present o /\
  optional.value (fst (optional.UnmarshalJSON o data)) = optional.value o.
Proof.
  intros Hd Hp. now rewrite (UnmarshalJSON_failure o data partial e Hd Hp).
Qed.

Context {FT : Formatter T}.

(** C1, as the code has it.  Take a value [v] that [json.Marshal] turns
    into bytes other than [null], and that [json.Unmarshal] reads back from
    those bytes as a value printing like [v].  Then serializing [Some v]
    and deserializing the result, into any target, succeeds with an
    Optional that [Equals] [Some v].  And serializing [None] and
    deserializing the result, into any target, succeeds with an empty
    Optional. *)
Theorem roundtrip_spec (v v' : T) (data : string)
    (target : optional.Optional T) :
  json_Marshal v = (data, nil_error) ->
  data <> "null" ->
  json_Unmarshal data zero = (v', nil_error) ->
  Sprintf_v v' = Sprintf_v v ->
  (snd (roundtrip (optional.Some v) target) = nil_error /\
   optional.Equals (fst (roundtrip (optional.Some v) target))
     (optional.Some v) = true) /\
  (snd (roundtrip (optional.None T) target) = nil_error /\
   optional.IsEmpty (fst (roundtrip (optional.None T) target)) = true).
Proof.
  intros Hm Hd Hu Hs. split.
  - unfold roundtrip. rewrite MarshalJSON_Some, Hm. simpl.
    rewrite (UnmarshalJSON_success target data v' Hd Hu). simpl.
    split; [reflexivity |].
    now apply Equals_present.
  - now rewrite roundtrip_None.
Qed.

End Serialization.

(** ** The [int] codec

    [json.Unmarshal] reads back what [json.Marshal] writes for an [int],
    and that text is never [null]. *)

Section IntCodec.

Lemma number_start_tests (c : ascii) :
  json.number_start c = true ->
  json.is_space c = false /\ Ascii.eqb c "n" = false /\
  Ascii.eqb c "t" = false /\ Ascii.eqb c "f" = false /\
  Ascii.eqb c json.quote = false.
Proof.
  destruct c as [[|] [|] [|] [|] [|] [|] [|] [|]]; try discriminate;
    repeat split.
Qed.

Lemma parse_number (c : ascii) (rest lit : string) :
  json.number_start c = true ->
  json.scan_number (String c rest) = Some (lit, "") ->
  json.parse (String c rest) = Some (json.Number lit).
Proof.
  intros Hc Hs.
  destruct (number_start_tests c Hc) as (Hsp & Hn & Ht & Hf & Hq).
  unfold json.parse.
  replace (2 * String.length (String c rest) + 2)%nat
    with (S (2 * String.length (String c rest) + 1)) by lia.
  cbn [json.parse_value json.skip_space].
  rewrite Hsp, Hn, Ht, Hf, Hq.
  rewrite Hc, Hs. reflexivity.
Qed.

Lemma scan_digits_uint (u : Decimal.uint) :
  json.scan_digits (NilEmpty.string_of_uint u)
  = (NilEmpty.string_of_uint u, "").
Proof.
  induction u; simpl; try rewrite IHu; reflexivity.
Qed.

Lemma append_empty (s : string) : s ++ "" = s.
Proof. induction s; simpl; congruence. Qed.

Lemma nzhead_not_D0 (u u' : Decimal.uint) : Decimal.nzhead u <> Decimal.D0 u'.
Proof. induction u; simpl; try discriminate; assumption. Qed.

Lemma to_uint_head (p : positive) (u' : Decimal.uint) :
  Pos.to_uint p <> Decimal.D0 u'.
Proof.
  pose proof (Unsigned.to_of (Pos.to_uint p)) as E.
  rewrite Unsigned.of_to in E. simpl in E.
  pose proof (Unsigned.to_uint_nonzero p) as Hz.
  unfold Decimal.unorm in E.
  destruct (Decimal.nzhead (Pos.to_uint p)) eqn:Hh;
    try (rewrite E; discriminate).
  - congruence.
  - exfalso. exact (nzhead_not_D0 _ _ Hh).
Qed.

Lemma scan_number_uint (u : Decimal.uint) :
  u <> Decimal.Nil -> (forall u', u <> Decimal.D0 u') ->
  json.scan_number (NilEmpty.string_of_uint u)
    = Some (NilEmpty.string_of_uint u, "") /\
  json.scan_number (String "-" (NilEmpty.string_of_uint u))
    = Some (String "-" (NilEmpty.string_of_uint u), "").
Proof.
  intros Hn H0.
  destruct u; try congruence; try (exfalso; exact (H0 _ eq_refl));
    unfold json.scan_number; simpl; rewrite scan_digits_uint; simpl;
    rewrite append_empty; split; reflexivity.
Qed.

Lemma parse_uint (u : Decimal.uint) :
  u <> Decimal.Nil -> (forall u', u <> Decimal.D0 u') ->
  json.parse (NilEmpty.string_of_uint u)
    = Some (json.Number (NilEmpty.string_of_uint u)) /\
  json.parse (String "-" (NilEmpty.string_of_uint u))
    = Some (json.Number (String "-" (NilEmpty.string_of_uint u))).
Proof.
  intros Hn H0. destruct (scan_number_uint u Hn H0) as [S1 S2]. split.
  - destruct u; try congruence; try (exfalso; exact (H0 _ eq_refl));
      simpl in *; apply parse_number; solve [reflexivity | exact S1].
  - apply parse_number; [reflexivity | exact S2].
Qed.

Lemma ParseInt_unsigned (c : ascii) (r : string) (bitSize : Z) :
  json.is_digit c = true ->
  strconv.ParseInt (String c r) bitSize =
    match NilZero.uint_of_string (String c r) with
    | Some u => if strconv.fits bitSize (Z.of_uint u) then Some (Z.of_uint u) else None
    | None => None
    end.
Proof.
  intros Hc. unfold strconv.ParseInt, strconv.fits.
  destruct c as [[|] [|] [|] [|] [|] [|] [|] [|]]; try discriminate Hc;
    destruct (NilZero.uint_of_string _); reflexivity.
Qed.

Lemma ParseInt_negative (r : string) (bitSize : Z) :
  strconv.ParseInt (String "-" r) bitSize =
    match NilZero.uint_of_string r with
    | Some u =>
        if strconv.fits bitSize (- Z.of_uint u) then Some (- Z.of_uint u)%Z else None
    | None => None
    end.
Proof.
  unfold strconv.ParseInt, strconv.fits.
  destruct (NilZero.uint_of_string r); reflexivity.
Qed.

Lemma of_uint_to_uint (p : positive) : Z.of_uint (Pos.to_uint p) = Zpos p.
Proof. exact (DecimalZ.of_to (Zpos p)). Qed.

Lemma fits_int (v : int) : int_range v -> strconv.fits 64 v = true.
Proof.
  unfold int_range, strconv.fits. intros [Hl Hu].
  apply andb_true_intro. split; [now apply Z.leb_le | now apply Z.ltb_lt].
Qed.

Lemma Itoa_positive (p : positive) :
  strconv.Itoa (Zpos p) = NilEmpty.string_of_uint (Pos.to_uint p).
Proof.
  unfold strconv.Itoa. simpl.
  pose proof (Unsigned.to_uint_nonnil p).
  now destruct (Pos.to_uint p).
Qed.

Lemma Itoa_negative (p : positive) :
  strconv.Itoa (Zneg p) = String "-" (NilEmpty.string_of_uint (Pos.to_uint p)).
Proof.
  unfold strconv.Itoa. simpl.
  pose proof (Unsigned.to_uint_nonnil p).
  now destruct (Pos.to_uint p).
Qed.

Lemma parse_Itoa (v : Z) :
  json.parse (strconv.Itoa v) = Some (json.Number (strconv.Itoa v)).
Proof.
  destruct v as [| p | p].
  - reflexivity.
  - rewrite Itoa_positive.
    apply parse_uint; [apply Unsigned.to_uint_nonnil | apply to_uint_head].
  - rewrite Itoa_negative.
    apply parse_uint; [apply Unsigned.to_uint_nonnil | apply to_uint_head].
Qed.

Lemma uint_of_string_to_uint (p : positive) :
  NilZero.uint_of_string (NilEmpty.string_of_uint (Pos.to_uint p))
  = Some (Pos.to_uint p).
Proof.
  pose proof (Unsigned.to_uint_nonnil p) as Hn.
  pose proof (NilZero.usu _ Hn) as E.
  now destruct (Pos.to_uint p).
Qed.

Lemma ParseInt_Itoa (v : int) :
  int_range v -> strconv.ParseInt (strconv.Itoa v) 64 = Some v.
Proof.
  intros Hv. pose proof (fits_int v Hv) as Hb.
  destruct v as [| p | p].
  - reflexivity.
  - rewrite Itoa_positive.
    pose proof (uint_of_string_to_uint p) as E.
    pose proof (Unsigned.to_uint_nonnil p) as Hn.
    pose proof (to_uint_head p) as H0.
    destruct (Pos.to_uint p) eqn:Hu; try congruence;
      try (exfalso; exact (H0 _ eq_refl));
      simpl NilEmpty.string_of_uint in *;
      rewrite ParseInt_unsigned by reflexivity;
      rewrite E, <- Hu, of_uint_to_uint, Hb; reflexivity.
  - rewrite Itoa_negative, ParseInt_negative, uint_of_string_to_uint.
    rewrite of_uint_to_uint. change (- Zpos p)%Z with (Zneg p).
    now rewrite Hb.
Qed.

Lemma Itoa_not_null (v : Z) : strconv.Itoa v <> "null".
Proof.
  intros E. pose proof (parse_Itoa v) as P. rewrite E in P. discriminate P.
Qed.

Lemma json_int_roundtrip (v cur : int) :
  int_range v ->
  json_Unmarshal (fst (json_Marshal v)) cur = (v, nil_error).
Proof.
  intros Hv. simpl. rewrite parse_Itoa. simpl. now rewrite ParseInt_Itoa.
Qed.

Lemma Itoa_inj (x y : Z) : strconv.Itoa x = strconv.Itoa y -> x = y.
Proof.
  unfold strconv.Itoa. intros E.
  assert (P : forall z, NilZero.int_of_string
                          (NilZero.string_of_int (Z.to_int z))
                        = Some (Z.to_int z)).
  { intros [| p | p]; apply NilZero.isi; simpl; try discriminate;
      intros [= H]; exact (Unsigned.to_uint_nonnil p H). }
  pose proof (P x) as Px. rewrite E, P in Px.
  injection Px as Px. symmetry. now apply DecimalZ.to_int_inj.
Qed.

(** On [int] the equality [Equals] uses is the equality of the values. *)
Lemma Equals_int (x y : int) :
  optional.Equals (optional.Some x) (optional.Some y) = true <-> x = y.
Proof.
  rewrite Equals_present by reflexivity. simpl. split.
  - apply Itoa_inj.
  - now intros ->.
Qed.

(** Every [int] comes back from the round trip as it went in. *)
Lemma roundtrip_int (v : int) (target : optional.Optional int) :
  int_range v ->
  roundtrip (optional.Some v) target = (optional.Some v, nil_error).
Proof.
  intros Hv. unfold roundtrip. rewrite MarshalJSON_Some. simpl.
  apply UnmarshalJSON_success.
  - apply Itoa_not_null.
  - exact (json_int_roundtrip v zero Hv).
Qed.

End IntCodec.

(** ** The package at [int] and [[]int] *)

Section Instances.

Local Open Scope Z_scope.

(** The scenarios of the package's tests. *)

Example test_OrElse :
  optional.OrElse some42 0 = 42 /\ optional.OrElse none_int 100 = 100.
Proof. split; reflexivity. Qed.

Example test_Map_String (w : unit) :
  optional.String (fst (optional.Map some42 (pure (fun x => x * 2)) w))
  = "Some(84)".
Proof. reflexivity. Qed.

Example test_MarshalJSON :
  optional.MarshalJSON some42 = json_Marshal (42 : int) /\
  optional.MarshalJSON some42 = ("42", nil_error) /\
  optional.MarshalJSON none_int = ("null", nil_error).
Proof. repeat split. Qed.

Example test_UnmarshalJSON :
  optional.UnmarshalJSON none_int "42" = (some42, nil_error) /\
  optional.UnmarshalJSON none_int "null" = (none_int, nil_error) /\
  optional.UnmarshalJSON none_int "invalid" = (none_int, Some SyntaxError).
Proof. repeat split. Qed.

Example test_Filter (w : unit) :
  let big := pure (fun x => 50 <? x) in
  optional.OrElse (fst (optional.Filter some42 big w)) 0 = 0 /\
  optional.OrElse (fst (optional.Filter (optional.Some 84) big w)) 0 = 84.
Proof. split; reflexivity. Qed.

Example test_roundtrip_slice (target : optional.Optional (slice int)) :
  roundtrip (optional.Some (mk_slice [1; -2; 3])) target
    = (optional.Some (mk_slice [1; -2; 3]), nil_error) /\
  roundtrip (optional.Some (mk_slice [])) target
    = (optional.Some (mk_slice []), nil_error).
Proof. split; reflexivity. Qed.

(** C4 at [Some(42)] and at [None[int]()], with the message of the
    tests. *)
Lemma Get_OrElsePanic_witness :
  (optional.present some42 = true /\
   optional.Get some42 = Returns 42 /\
   optional.OrElsePanic some42 "custom panic message" = Returns 42) /\
  (optional.present none_int = false /\
   optional.Get none_int = Panics "called Get() on empty Optional" /\
   optional.OrElsePanic none_int "custom panic message"
     = Panics "custom panic message").
Proof.
  split; (split; [reflexivity |]).
  - apply (proj1 (Get_OrElsePanic_spec some42 "custom panic message")).
    reflexivity.
  - apply (proj2 (Get_OrElsePanic_spec none_int "custom panic message")).
    reflexivity.
Defined.

(** C5 with a combiner that adds and counts its calls. *)
Lemma Zip_witness :
  optional.Zip some42 (optional.Some 8) (counting2 Z.add) 0%nat
    = (optional.Some 50, 1%nat) /\
  optional.Zip some42 none_int (counting2 Z.add) 0%nat
    = (optional.None int, 0%nat).
Proof.
  split.
  - apply (proj1 (proj2 (Zip_spec some42 (optional.Some 8)
                           (counting2 Z.add) 0%nat))); reflexivity.
  - apply (proj1 (proj2 (proj2 (Zip_spec some42 none_int
                                  (counting2 Z.add) 0%nat)))).
    right. reflexivity.
Defined.

(** C6 on [None[int]()] with a mapper that counts its calls. *)
Lemma FlatMap_witness :
  optional.present none_int = false /\
  optional.FlatMap none_int (counting (fun x => optional.Some (x + 1))) 0%nat
    = (optional.None int, 0%nat).
Proof.
  split; [reflexivity |].
  apply (proj2 (FlatMap_spec 0 (counting (fun x => optional.Some (x + 1)))
                  none_int 0%nat)).
  reflexivity.
Defined.

(** C7 with the predicate of the tests, counting its calls. *)
Lemma Filter_witness :
  let big := counting (fun x => 50 <? x) in
  optional.Filter (optional.Some 84) big 0%nat
    = (optional.Some 84, 1%nat) /\
  optional.Filter some42 big 0%nat = (optional.None int, 1%nat) /\
  optional.Filter none_int big 0%nat = (optional.None int, 0%nat).
Proof.
  intros big. split; [| split].
  - apply (proj1 (Filter_spec (optional.Some 84) big 0%nat)); reflexivity.
  - apply (proj1 (proj2 (Filter_spec some42 big 0%nat))); reflexivity.
  - apply (proj2 (proj2 (Filter_spec none_int big 0%nat))). reflexivity.
Defined.

(** C8 on the four cases of the tests. *)
Lemma Equals_witness :
  optional.Equals none_int (optional.None int) = true /\
  optional.Equals some42 none_int = false /\
  (optional.Equals some42 (optional.Some 42) = true <->
   Sprintf_v (42 : int) = Sprintf_v (42 : int)).
Proof.
  split; [| split].
  - apply (proj1 (Equals_spec none_int (optional.None int))); reflexivity.
  - apply (proj1 (proj2 (Equals_spec some42 none_int))). discriminate.
  - apply (proj2 (proj2 (Equals_spec some42 (optional.Some 42))));
      reflexivity.
Defined.

(** C10 at [[]int]: a nil slice and an empty one are different values
    that print alike, and the Optionals holding them are equal. *)
Lemma Equals_String_witness :
  @nil_slice int <> mk_slice [] /\
  Sprintf_v (@nil_slice int) = Sprintf_v (@mk_slice int []) /\
  optional.Equals (optional.Some (@nil_slice int))
    (optional.Some (mk_slice [])) = true.
Proof.
  split; [discriminate | split; [reflexivity |]].
  apply (proj2 (proj2 (proj2 (proj2 Equals_String_equivalence)))).
  reflexivity.
Defined.

(** C1 at [Some(42)]. *)
Lemma roundtrip_witness :
  json_Marshal (42 : int) = ("42", nil_error) /\
  "42" <> "null" /\
  json_Unmarshal "42" (zero : int) = (42, nil_error) /\
  (snd (roundtrip some42 none_int) = nil_error /\
   optional.Equals (fst (roundtrip some42 none_int)) some42 = true) /\
  (snd (roundtrip none_int some42) = nil_error /\
   optional.IsEmpty (fst (roundtrip none_int some42)) = true).
Proof.
  split; [reflexivity | split; [discriminate | split; [reflexivity |]]].
  split.
  - refine (proj1 (roundtrip_spec (T := int) 42 42 "42" none_int _ _ _ _));
      first [reflexivity | discriminate].
  - refine (proj2 (roundtrip_spec (T := int) 42 42 "42" some42 _ _ _ _));
      first [reflexivity | discriminate].
Defined.

(** C1 fails at [[]int]: the nil slice serializes to [null], which
    [json.Unmarshal] reads back as the nil slice, but [Some] of it comes
    back from the round trip as [None], which does not equal it. *)
Lemma roundtrip_nil_slice_counterexample :
  let v : slice int := nil_slice in
  json_Marshal v = ("null", nil_error) /\
  json_Unmarshal "null" (zero : slice int) = (v, nil_error) /\
  Sprintf_v (fst (json_Unmarshal "null" (zero : slice int))) = Sprintf_v v /\
  roundtrip (optional.Some v) (optional.None (slice int))
    = (optional.None (slice int), nil_error) /\
  optional.Equals
    (fst (roundtrip (optional.Some v) (optional.None (slice int))))
    (optional.Some v) = false.
Proof. repeat split. Qed.

(** C2 fails at [Some(42)]: after [null] is deserialized into it the
    value field still holds 42, the value stored before, and not the zero
    value. *)
Lemma UnmarshalJSON_null_counterexample :
  let o' := fst (optional.UnmarshalJSON some42 "null") in
  optional.present o' = false /\
  optional.value o' = optional.value some42 /\
  optional.value o' = 42 /\
  optional.value o' <> zero.
Proof. repeat split. discriminate. Qed.

(** C3 at the input of the tests: ["invalid"] is not JSON. *)
Lemma UnmarshalJSON_propagates_error_witness :
  "invalid" <> "null" /\
  json_Unmarshal "invalid" (zero : int) = (0, Some SyntaxError) /\
  snd (optional.UnmarshalJSON none_int "invalid") = Some SyntaxError /\
  optional.IsPresent (fst (optional.UnmarshalJSON none_int "invalid"))
    = false.
Proof.
  split; [discriminate | split; [reflexivity |]].
  assert (Hu : json_Unmarshal "invalid" (zero : int) = (0, Some SyntaxError))
    by reflexivity.
  pose proof (UnmarshalJSON_propagates_error none_int "invalid" 0 SyntaxError
                ltac:(discriminate) Hu) as (_ & He & Hp & _).
  split; [exact He | exact (Hp eq_refl)].
Defined.

(** C9 with a present receiver: [Some(42)] is still [Some(42)] after a
    number that does not fit an [int] was rejected. *)
Lemma UnmarshalJSON_failure_atomic_witness :
  "1.5" <> "null" /\
  json_Unmarshal "1.5" (zero : int)
    = (0, Some (UnmarshalTypeError "number 1.5" "int")) /\
  optional.UnmarshalJSON some42 "1.5"
    = (some42, Some (UnmarshalTypeError "number 1.5" "int")).
Proof.
  split; [discriminate | split; [reflexivity |]].
  refine (proj1 (UnmarshalJSON_failure_atomic some42 "1.5" 0
                   (UnmarshalTypeError "number 1.5" "int") _ _));
    first [reflexivity | discriminate].
Defined.

End Instances.

(** ** Further properties of the package *)

Section Basics.

Context {T : Type} {ZT : Zero T}.

(** X1.  The constructors and the inspectors fit together: [Some v] is
    present and [Get] returns [v] from it, [None] is empty and [Get] panics
    on it, [IsPresent] is always the negation of [IsEmpty], and [Get]
    returns exactly on the Optionals that are present. *)
Theorem constructors_inspectors (o : optional.Optional T) (v : T) :
  optional.IsPresent (optional.Some v) = true /\
  optional.Get (optional.Some v) = Returns v /\
  optional.IsPresent (optional.None T) = false /\
  optional.IsEmpty (optional.None T) = true /\
  optional.Get (optional.None T) = Panics "called Get() on empty Optional" /\
  optional.IsPresent o = negb (optional.IsEmpty o) /\
  (optional.IsPresent o = true <-> exists x, optional.Get o = Returns x).
Proof.
  repeat split; try (unfold optional.IsPresent, optional.IsEmpty;
                     now destruct (optional.present o)).
  - intros H. exists (optional.value o). now apply Get_present.
  - intros [x Hx]. unfold optional.Get, optional.IsPresent in *.
    destruct (optional.present o); [reflexivity | discriminate Hx].
Qed.


(** X3.  [OrElse] is [Get] with the panic replaced by the default: it
    gives what [Get] returns when [Get] returns, and the default when
    [Get] panics.  Falling back twice is falling back on an [Or]. *)
Theorem OrElse_laws (a b : optional.Optional T) (d : T) :
  (forall x, optional.Get a = Returns x -> optional.OrElse a d = x) /\
  (forall msg, optional.Get a = Panics msg -> optional.OrElse a d = d) /\
  optional.OrElse (optional.Or a b) d
    = optional.OrElse a (optional.OrElse b d).
Proof.
  unfold optional.Get, optional.OrElse, optional.Or.
  destruct (optional.present a) eqn:Ha; simpl; rewrite ?Ha;
    repeat split; intros; congruence.
Qed.

Section Callbacks.

Context {W : Type}.

(** X4.  [OrElseGet] calls the supplier only when it has to.  On a
    present receiver it returns the value whatever the supplier and leaves
    the world alone; on an absent one it is the supplier's own call.  A
    counting supplier is called never or once, and a supplier that just
    returns [d] makes it [OrElse]. *)
Theorem OrElseGet_lazy (o : optional.Optional T) (supplier : Eff W T)
    (w : W) (d : T) (calls : nat) :
  (optional.present o = true ->
     optional.OrElseGet o supplier w = (optional.value o, w)) /\
  (optional.present o = false ->
     optional.OrElseGet o supplier w = supplier w) /\
  optional.OrElseGet o (counting0 d) calls
    = (optional.OrElse o d,
       if optional.present o then calls else S calls) /\
  optional.OrElseGet o (ret d) w = (optional.OrElse o d, w).
Proof.
  unfold optional.OrElseGet, optional.OrElse.
  destruct (optional.present o); repeat split; intros; congruence.
Qed.

(** X5.  [IfPresentOrElse] runs exactly one of its two callbacks, the
    consumer (on the value) when the receiver is present and the runnable
    when it is absent; [IfPresent] is the case where the runnable does
    nothing.  With callbacks that count their calls apart, exactly one
    counter goes up, by one. *)
Theorem IfPresentOrElse_exactly_one (o : optional.Optional T)
    (consumer : T -> Eff W unit) (runnable : Eff W unit) (w : W)
    (n m : nat) :
  (optional.present o = true ->
     optional.IfPresentOrElse o consumer runnable w
       = consumer (optional.value o) w) /\
  (optional.present o = false ->
     optional.IfPresentOrElse o consumer runnable w = runnable w /\
     optional.IfPresent o consumer w = (tt, w)) /\
  optional.IfPresent o consumer w
    = optional.IfPresentOrElse o consumer (ret tt) w /\
  optional.IfPresentOrElse o tick_consumer tick_runnable (n, m)
    = (tt, if optional.present o then (S n, m) else (n, S m)).
Proof.
  unfold optional.IfPresentOrElse, optional.IfPresent.
  destruct (optional.present o); repeat split; intros; congruence.
Qed.

End Callbacks.

End Basics.

Section MapCases.

Context {T U W : Type} {ZU : Zero U}.

Lemma Map_present (o : optional.Optional T) (f : T -> Eff W U) (w : W) :
  optional.present o = true ->
  optional.Map o f w =
    (optional.Some (fst (f (optional.value o) w)),
     snd (f (optional.value o) w)).
Proof.
  unfold optional.Map, bind, ret. intros ->. now destruct (f _ w).
Qed.

Lemma Map_absent (o : optional.Optional T) (f : T -> Eff W U) (w : W) :
  optional.present o = false -> optional.Map o f w = (optional.None U, w).
Proof. unfold optional.Map. now intros ->. Qed.

End MapCases.

Section Laws.

Context {T U R W : Type} {ZT : Zero T} {ZU : Zero U} {ZR : Zero R}.

(** X6.  [Map] on a present Optional is [Some] of the mapper's result,
    the mapper having run once; on an absent one it is [None] whatever the
    mapper, the world untouched.  The result is present exactly when the
    input is, and a counting mapper is called once or never. *)
Theorem Map_spec (o : optional.Optional T) (f : T -> Eff W U) (w : W) :
  (optional.present o = true ->
     optional.Map o f w =
       (optional.Some (fst (f (optional.value o) w)),
        snd (f (optional.value o) w))) /\
  (optional.present o = false ->
     forall g : T -> Eff W U, optional.Map o g w = (optional.None U, w)) /\
  optional.present (fst (optional.Map o f w)) = optional.present o /\
  (forall (h : T -> U) (calls : nat),
     snd (optional.Map o (counting h) calls) =
       if optional.present o then S calls else calls).
Proof.
  split; [apply Map_present | split; [| split]].
  - intros Ho g. now apply Map_absent.
  - destruct (optional.present o) eqn:Ho.
    + now rewrite Map_present.
    + now rewrite Map_absent.
  - intros h calls. destruct (optional.present o) eqn:Ho.
    + now rewrite Map_present.
    + now rewrite Map_absent.
Qed.

(** X7.  Mapping twice is mapping once with the two mappers run one after
    the other, effects included; mapping with the identity gives the
    receiver back when it is present and [None] when it is absent. *)
Theorem Map_compose (o : optional.Optional T) (f : T -> Eff W U)
    (g : U -> Eff W R) (w : W) :
  bind (optional.Map o f) (fun o1 => optional.Map o1 g) w
    = optional.Map o (fun x => bind (f x) g) w /\
  optional.Map o (fun x => ret x) w
    = (optional.Or o (optional.None T), w).
Proof.
  destruct o as [v [|]]; unfold optional.Map, optional.Or, bind, ret; simpl.
  - split; [| reflexivity]. destruct (f v w) as [u w1]. simpl.
    now destruct (g u w1).
  - now split.
Qed.

(** X8.  [FlatMap] is associative, effects included; [Some] as the mapper
    gives the receiver back when it is present and [None] when it is
    absent; and [Map] is [FlatMap] with the mapper's result wrapped in
    [Some]. *)
Theorem FlatMap_laws (o : optional.Optional T)
    (f : T -> Eff W (optional.Optional U))
    (g : U -> Eff W (optional.Optional R)) (h : T -> Eff W U) (w : W) :
  bind (optional.FlatMap o f) (fun o1 => optional.FlatMap o1 g) w
    = optional.FlatMap o
        (fun x => bind (f x) (fun o1 => optional.FlatMap o1 g)) w /\
  optional.FlatMap o (fun x => ret (optional.Some x)) w
    = (optional.Or o (optional.None T), w) /\
  optional.Map o h w
    = optional.FlatMap o
        (fun x => bind (h x) (fun u => ret (optional.Some u))) w.
Proof.
  destruct o as [v [|]];
    unfold optional.FlatMap, optional.Map, optional.Or, bind, ret; simpl;
    repeat split.
Qed.

(** X9.  [Zip] is [FlatMap] over the first Optional of [Map] over the
    second, effects included, and swapping the two Optionals together with
    the combiner's arguments changes nothing. *)
Theorem Zip_decomposition (a : optional.Optional T) (b : optional.Optional U)
    (f : T -> U -> Eff W R) (w : W) :
  optional.Zip a b f w
    = optional.FlatMap a (fun x => optional.Map b (f x)) w /\
  optional.Zip a b f w = optional.Zip b a (fun y x => f x y) w.
Proof.
  destruct a as [x [|]], b as [y [|]];
    unfold optional.Zip, optional.FlatMap, optional.Map; simpl; split;
    reflexivity.
Qed.

(** X10.  [Filter] never makes anything present: its result is the
    receiver or [None], and when it is present the receiver was present
    and the predicate said true of its value.  Filtering twice is
    filtering once with the second predicate asked only after the first
    said true, effects included. *)
Theorem Filter_laws (o : optional.Optional T) (p q : T -> Eff W bool)
    (w : W) :
  (fst (optional.Filter o p w) = o \/
   fst (optional.Filter o p w) = optional.None T) /\
  (optional.present (fst (optional.Filter o p w)) = true ->
     optional.present o = true /\ fst (p (optional.value o) w) = true /\
     fst (optional.Filter o p w) = o) /\
  bind (optional.Filter o p) (fun o1 => optional.Filter o1 q) w
    = optional.Filter o
        (fun x => bind (p x) (fun keep => if keep then q x else ret false))
        w.
Proof.
  destruct o as [v [|]]; unfold optional.Filter, bind, ret; simpl.
  - destruct (p v w) as [[|] w1]; simpl; repeat split; auto;
      discriminate.
  - repeat split; auto; discriminate.
Qed.

End Laws.

Section MoreDisplay.

Context {T : Type} {ZT : Zero T} {FT : Formatter T}.


End MoreDisplay.

Section MoreSerialization.

Context {T : Type} {ZT : Zero T} {JT : JSON T}.

(** X12.  Whatever the receiver and the input, [UnmarshalJSON] ends in one
    of two ways.  With an error, the receiver is exactly as before.
    Without one, the receiver is absent if the input was the four bytes
    [null] and present otherwise, and then it holds what [json.Unmarshal]
    made of the input starting from a zero value. *)
Theorem UnmarshalJSON_outcomes (o : optional.Optional T) (data : string) :
  let o' := fst (optional.UnmarshalJSON o data) in
  let err := snd (optional.UnmarshalJSON o data) in
  (is_nil err = false -> o' = o) /\
  (is_nil err = true ->
     optional.present o' = negb (String.eqb data "null") /\
     (optional.present o' = true ->
        optional.value o' = fst (json_Unmarshal data zero))).
Proof.
  unfold optional.UnmarshalJSON.
  destruct (String.eqb data "null"); simpl.
  - split; [discriminate | intros _; split; [reflexivity | discriminate]].
  - destruct (json_Unmarshal data zero) as [v [e |]]; simpl.
    + split; [reflexivity | discriminate].
    + split; [discriminate | intros _; split; reflexivity].
Qed.

(** X13.  A successful deserialization of anything but [null] does not
    depend on what the receiver held: the receiver ends as [Some] of the
    value [json.Unmarshal] builds from a zero value, so nothing of the old
    contents survives, not even where the parser leaves its target
    alone. *)
Theorem UnmarshalJSON_overwrites (o1 o2 : optional.Optional T)
    (data : string) (v : T) :
  data <> "null" ->
  json_Unmarshal data zero = (v, nil_error) ->
  optional.UnmarshalJSON o1 data = (optional.Some v, nil_error) /\
  optional.UnmarshalJSON o1 data = optional.UnmarshalJSON o2 data.
Proof.
  intros Hd Hu.
  now rewrite !(UnmarshalJSON_success _ data v Hd Hu).
Qed.

End MoreSerialization.

(** ** Optional[int] *)

Section OptionalInt.

Local Open Scope Z_scope.

(** X14.  Serializing an [Optional[int]] never fails; the bytes are
    [null] exactly for an empty one; and two of them serialize to the same
    bytes exactly when [Equals] holds between them. *)
Theorem MarshalJSON_int (a b : optional.Optional int) :
  snd (optional.MarshalJSON a) = nil_error /\
  (fst (optional.MarshalJSON a) = "null" <-> optional.IsEmpty a = true) /\
  (optional.MarshalJSON a = optional.MarshalJSON b <->
   optional.Equals a b = true).
Proof.
  assert (Hnull : forall z : int, fst (json_Marshal z) <> "null")
    by (intros z; apply Itoa_not_null).
  destruct a as [x [|]], b as [y [|]];
    unfold optional.MarshalJSON, optional.IsEmpty, optional.Equals; simpl;
    (split; [reflexivity |]); (split; [split |]);
    try discriminate; try (intros E; exfalso; exact (Hnull _ E)).
  - split.
    + intros [= E]. apply String.eqb_eq. exact E.
    + intros E. apply String.eqb_eq in E.
      unfold Sprintf_v, Formatter_int in E. now rewrite E.
  - split; [| discriminate].
    intros [= E]. exfalso. exact (Hnull x E).
  - reflexivity.
  - reflexivity.
  - split; [| discriminate].
    intros [= E]. exfalso. exact (Hnull y (eq_sym E)).
  - reflexivity.
  - reflexivity.
  - now split.
Qed.

(** X15.  On [Optional[int]], [Equals] is equality of the contents: two
    Optionals are equal exactly when both are empty, or both are present
    with the same number. *)
Theorem Equals_int_spec (a b : optional.Optional int) :
  optional.Equals a b = true <->
  (optional.present a = false /\ optional.present b = false) \/
  (optional.present a = true /\ optional.present b = true /\
   optional.value a = optional.value b).
Proof.
  destruct a as [x [|]], b as [y [|]]; simpl.
  - rewrite (Equals_int x y). split.
    + intros ->. right. auto.
    + intros [[H _] | (_ & _ & H)]; [discriminate H | exact H].
  - split; [discriminate |].
    intros [[H _] | (_ & H & _)]; discriminate H.
  - split; [discriminate |].
    intros [[_ H] | (H & _)]; discriminate H.
  - split; [auto | reflexivity].
Qed.

(** X16.  Every [Optional[int]] survives the round trip through JSON,
    into any target: a present one holding a 64-bit number comes back as
    itself, an empty one comes back empty, and in both cases without error
    and equal to the original under [Equals]. *)
Theorem roundtrip_Optional_int (o target : optional.Optional int) :
  (optional.present o = true -> int_range (optional.value o)) ->
  snd (roundtrip o target) = nil_error /\
  optional.present (fst (roundtrip o target)) = optional.present o /\
  (optional.present o = true -> fst (roundtrip o target) = o) /\
  optional.Equals (fst (roundtrip o target)) o = true.
Proof.
  destruct o as [v [|]]; simpl; intros Hv.
  - change {| optional.value := v; optional.present := true |}
      with (optional.Some v).
    rewrite (roundtrip_int v target (Hv eq_refl)). simpl.
    repeat split. apply Equals_int. reflexivity.
  - repeat split. discriminate.
Qed.

Lemma roundtrip_Optional_int_witness :
  int_range 42 /\
  snd (roundtrip some42 none_int) = nil_error /\
  fst (roundtrip some42 none_int) = some42.
Proof.
  split; [unfold int_range; lia |].
  destruct (roundtrip_Optional_int some42 none_int) as (He & _ & Hs & _).
  - intros _. unfold int_range. simpl. lia.
  - split; [exact He | exact (Hs eq_refl)].
Defined.

(** X13 at a number and at padded [null]: [json.Unmarshal] leaves an
    [int] alone on [null], so what ends up in the receiver is the zero it
    started from and not the 42 the receiver held. *)
Lemma UnmarshalJSON_overwrites_witness :
  optional.UnmarshalJSON some42 "7" = (optional.Some 7, nil_error) /\
  optional.UnmarshalJSON some42 " null" = (optional.Some 0, nil_error) /\
  optional.UnmarshalJSON some42 " null"
    = optional.UnmarshalJSON none_int " null".
Proof.
  split; [| split].
  - refine (proj1 (UnmarshalJSON_overwrites some42 none_int "7" 7 _ _));
      first [reflexivity | discriminate].
  - refine (proj1 (UnmarshalJSON_overwrites some42 none_int " null" 0 _ _));
      first [reflexivity | discriminate].
  - refine (proj2 (UnmarshalJSON_overwrites some42 none_int " null" 0 _ _));
      first [reflexivity | discriminate].
Defined.

End OptionalInt.

(** ** Pointers *)

Section PointerLaws.

Context {T : Type} {ZT : Zero T}.

(** X17.  [ToPointer] gives [nil] for an empty Optional and, for a present
    one, a pointer into the Optional itself: it reads as the contained
    value, and a write through it changes what [Get] returns from that
    Optional, and nothing else in memory. *)
Theorem ToPointer_aliases (m : optional.memory T) (o : nat) (x : T) :
  (optional.present (optional.optionals m o) = false ->
     optional.ToPointer m o = None) /\
  (optional.present (optional.optionals m o) = true ->
     exists l,
       optional.ToPointer m o = Some l /\
       optional.load m l = optional.value (optional.optionals m o) /\
       optional.Get (optional.optionals (optional.store m l x) o)
         = Returns x /\
       (forall o2, o2 <> o ->
          optional.optionals (optional.store m l x) o2
            = optional.optionals m o2) /\
       (forall a, optional.variables (optional.store m l x) a
                  = optional.variables m a)).
Proof.
  unfold optional.ToPointer. split; intros Ho; rewrite Ho; simpl.
  - reflexivity.
  - exists (optional.value_of o). simpl. rewrite Nat.eqb_refl.
    unfold optional.Get. simpl. rewrite Ho. simpl.
    repeat split.
    intros o2 Hne. destruct (Nat.eqb_spec o o2); congruence.
Qed.

(** X18.  [FromPointer] copies.  From [nil] it builds an empty Optional,
    and [ToPointer] of that is [nil] again.  From a pointer to a variable
    it builds a present Optional holding the variable's contents; the
    pointer [ToPointer] then gives reads the same contents but is another
    pointer, and a write through it leaves the variable as it was.  And
    [FromPointer] of [ToPointer] is the Optional read back, or [None] if it
    was empty. *)
Theorem FromPointer_copies (m : optional.memory T) (a o : nat) (x : T) :
  let from_nil := optional.assign m o (optional.FromPointer m None) in
  let from_var :=
    optional.assign m o (optional.FromPointer m (Some (optional.var_at a))) in
  optional.FromPointer m None = optional.None T /\
  optional.ToPointer from_nil o = None /\
  optional.FromPointer m (Some (optional.var_at a))
    = optional.Some (optional.variables m a) /\
  optional.ToPointer from_var o = Some (optional.value_of o) /\
  optional.load from_var (optional.value_of o) = optional.variables m a /\
  optional.variables (optional.store from_var (optional.value_of o) x) a
    = optional.variables m a /\
  optional.FromPointer m (optional.ToPointer m o)
    = optional.Or (optional.optionals m o) (optional.None T).
Proof.
  unfold optional.ToPointer, optional.Or. simpl. rewrite Nat.eqb_refl. simpl.
  repeat split.
  destruct (optional.optionals m o) as [v [|]] eqn:E; simpl;
    [now rewrite E | reflexivity].
Qed.

End PointerLaws.

(** ** The example program *)

Section Example.

Local Open Scope Z_scope.

Lemma uint_of_string_digits (s : string) (u : Decimal.uint) :
  NilEmpty.uint_of_string s = Some u -> all_digits s = true.
Proof.
  revert u. induction s as [| c s IH]; simpl; intros u H; [reflexivity |].
  destruct (NilEmpty.uint_of_string s) as [u' |]; [| discriminate H].
  rewrite (IH u' eq_refl), andb_true_r.
  apply uint_of_char_spec in H.
  destruct H as [[-> _] | [[-> _] | [[-> _] | [[-> _] | [[-> _] |
                [[-> _] | [[-> _] | [[-> _] | [[-> _] | [-> _]]]]]]]]]];
    reflexivity.
Qed.

Lemma NilZero_uint_of_string_digits (s : string) (u : Decimal.uint) :
  NilZero.uint_of_string s = Some u -> s <> "" /\ all_digits s = true.
Proof.
  destruct s as [| c s]; [discriminate |].
  intros H. split; [discriminate |].
  exact (uint_of_string_digits _ _ H).
Qed.

Lemma ParseInt_Some (s : string) (bitSize n : Z) :
  strconv.ParseInt s bitSize = Some n ->
  strconv.fits bitSize n = true /\
  unsigned_part s <> "" /\ all_digits (unsigned_part s) = true.
Proof.
  unfold strconv.ParseInt.
  assert (K : forall parsed : option Decimal.int,
             match parsed with
             | Some d => if strconv.fits bitSize (Z.of_int d)
                         then Some (Z.of_int d) else None
             | None => None
             end = Some n -> strconv.fits bitSize n = true /\ parsed <> None).
  { intros [d |]; [| discriminate].
    destruct (strconv.fits bitSize (Z.of_int d)) eqn:F; [| discriminate].
    intros [= <-]. split; [exact F | discriminate]. }
  assert (D : forall (r : string) (f : Decimal.uint -> Decimal.int),
             option_map f (NilZero.uint_of_string r) <> None ->
             r <> "" /\ all_digits r = true).
  { intros r f H. destruct (NilZero.uint_of_string r) as [u |] eqn:E;
      [| now elim H]. exact (NilZero_uint_of_string_digits r u E). }
  destruct s as [| c r].
  - intros H. apply K in H. destruct H as [_ H]. now elim H.
  - destruct c as [[|] [|] [|] [|] [|] [|] [|] [|]];
      intros H; apply K in H; destruct H as [F H]; apply D in H;
      (split; [exact F | exact H]).
Qed.

Lemma fits_int_range (n : Z) : strconv.fits 64 n = true -> int_range n.
Proof.
  unfold strconv.fits, int_range. intros H.
  apply andb_prop in H. destruct H as [Hl Hu].
  apply Z.leb_le in Hl. apply Z.ltb_lt in Hu. simpl in *. lia.
Qed.

(** X19.  [parseNumber] reads back what [strconv.Itoa] writes: for every
    64-bit number the decimal text parses to [Some] of that number. *)
Theorem parseNumber_Itoa (v : int) :
  int_range v -> example.parseNumber (strconv.Itoa v) = optional.Some v.
Proof.
  intros Hv. unfold example.parseNumber, strconv.Atoi.
  now rewrite ParseInt_Itoa.
Qed.

Lemma parseNumber_Itoa_witness :
  int_range (-15) /\ example.parseNumber "-15" = optional.Some (-15).
Proof.
  assert (H : int_range (-15)) by (unfold int_range; lia).
  split; [exact H | exact (parseNumber_Itoa (-15) H)].
Defined.

(** X20.  [parseNumber] accepts only numerals.  When its result is
    present, the value is what [strconv.Atoi] read, it is a 64-bit number,
    and the input was an optional sign followed by one decimal digit or
    more and nothing else.  When [Atoi] fails the result is [None]. *)
Theorem parseNumber_present (s : string) :
  (optional.IsPresent (example.parseNumber s) = true ->
     strconv.Atoi s = Some (optional.value (example.parseNumber s)) /\
     int_range (optional.value (example.parseNumber s)) /\
     unsigned_part s <> "" /\ all_digits (unsigned_part s) = true) /\
  (strconv.Atoi s = None -> example.parseNumber s = optional.None int).
Proof.
  unfold example.parseNumber.
  destruct (strconv.Atoi s) as [n |] eqn:E; simpl.
  - split; [| discriminate]. intros _.
    destruct (ParseInt_Some s 64 n E) as (F & Hn & Hd).
    split; [reflexivity | split; [| split]].
    + apply fits_int_range. exact F.
    + exact Hn.
    + exact Hd.
  - split; [discriminate | reflexivity].
Qed.

Lemma report_one (input : string) (out : list string) :
  example.report input out = (tt, (out ++ [example.line_for input])%list).
Proof.
  unfold example.report, example.line_for, example.parseNumber.
  destruct (strconv.Atoi input) as [n |]; reflexivity.
Qed.

(** X22.  The loop of the example program writes exactly one line for
    each input, in order, after what was written before: the parsed number
    for an input [strconv.Atoi] accepts and the failure line for any
    other, never both and never neither. *)
Theorem report_all_one_line_each (userInputs : list string)
    (out : list string) :
  snd (example.report_all userInputs out)
    = (out ++ map example.line_for userInputs)%list /\
  length (snd (example.report_all userInputs out))
    = (length out + length userInputs)%nat.
Proof.
  assert (E : snd (example.report_all userInputs out)
              = (out ++ map example.line_for userInputs)%list).
  { revert out. induction userInputs as [| input rest IH]; intros out.
    - simpl. now rewrite app_nil_r.
    - simpl. unfold bind. rewrite report_one, IH, <- app_assoc.
      reflexivity. }
  split; [exact E |].
  now rewrite E, length_app, length_map.
Qed.

End Example.

(** ** The [[]int] codec

    [json.Unmarshal] reads back what [json.Marshal] writes for a slice
    that is not nil. *)

Section SliceCodec.

Lemma append_assoc (s1 s2 s3 : string) : (s1 ++ s2) ++ s3 = s1 ++ s2 ++ s3.
Proof. induction s1; simpl; congruence. Qed.

Lemma delimiter_tests (c : ascii) :
  delimiter c = true ->
  json.is_digit c = false /\ json.is_space c = false /\
  Ascii.eqb c "." = false /\ Ascii.eqb c "e" = false /\
  Ascii.eqb c "E" = false.
Proof.
  destruct c as [[|] [|] [|] [|] [|] [|] [|] [|]]; try discriminate;
    repeat split.
Qed.

Lemma scan_digits_tail (u : Decimal.uint) (c : ascii) (r : string) :
  delimiter c = true ->
  json.scan_digits (NilEmpty.string_of_uint u ++ String c r)
  = (NilEmpty.string_of_uint u, String c r).
Proof.
  intros Hc. destruct (delimiter_tests c Hc) as (Hd & _).
  induction u; simpl; try rewrite IHu; try reflexivity.
  now rewrite Hd.
Qed.

Lemma scan_frac_exp_tail (c : ascii) (r : string) :
  delimiter c = true ->
  json.scan_frac (String c r) = Some ("", String c r) /\
  json.scan_exp (String c r) = Some ("", String c r).
Proof.
  destruct c as [[|] [|] [|] [|] [|] [|] [|] [|]]; try discriminate;
    split; reflexivity.
Qed.

Lemma scan_number_parts (s sg r0 ip : string) (c : ascii) (r : string) :
  delimiter c = true ->
  json.scan_sign true s = (sg, r0) ->
  json.scan_int_part r0 = Some (ip, String c r) ->
  json.scan_number s = Some (sg ++ ip, String c r).
Proof.
  intros Hc Hsg Hip. destruct (scan_frac_exp_tail c r Hc) as [Hf He].
  unfold json.scan_number. rewrite Hsg, Hip, Hf, He.
  simpl. now rewrite append_empty.
Qed.

Lemma scan_int_part_uint_tail (u : Decimal.uint) (c : ascii) (r : string) :
  delimiter c = true ->
  u <> Decimal.Nil -> (forall u', u <> Decimal.D0 u') ->
  json.scan_int_part (NilEmpty.string_of_uint u ++ String c r)
    = Some (NilEmpty.string_of_uint u, String c r) /\
  json.scan_sign true (NilEmpty.string_of_uint u ++ String c r)
    = ("", NilEmpty.string_of_uint u ++ String c r).
Proof.
  intros Hc Hn H0.
  destruct u; try congruence; try (exfalso; exact (H0 _ eq_refl));
    simpl; rewrite scan_digits_tail by exact Hc; split; reflexivity.
Qed.

Lemma scan_number_Itoa_tail (v : Z) (c : ascii) (r : string) :
  delimiter c = true ->
  json.scan_number (strconv.Itoa v ++ String c r)
    = Some (strconv.Itoa v, String c r).
Proof.
  intros Hc. destruct v as [| p | p].
  - now apply (scan_number_parts _ "" (String "0" (String c r)) "0").
  - rewrite Itoa_positive.
    destruct (scan_int_part_uint_tail (Pos.to_uint p) c r Hc
                (Unsigned.to_uint_nonnil p) (to_uint_head p)) as [Hip Hsg].
    exact (scan_number_parts _ "" _ _ c r Hc Hsg Hip).
  - rewrite Itoa_negative.
    destruct (scan_int_part_uint_tail (Pos.to_uint p) c r Hc
                (Unsigned.to_uint_nonnil p) (to_uint_head p)) as [Hip _].
    apply (scan_number_parts _ "-"
             (NilEmpty.string_of_uint (Pos.to_uint p) ++ String c r)
             (NilEmpty.string_of_uint (Pos.to_uint p)) c r Hc);
      [reflexivity | exact Hip].
Qed.

Lemma Itoa_head (v : Z) :
  exists c r, strconv.Itoa v = String c r /\ json.number_start c = true.
Proof.
  destruct v as [| p | p].
  - now exists "0"%char, "".
  - rewrite Itoa_positive.
    pose proof (Unsigned.to_uint_nonnil p) as Hn.
    destruct (Pos.to_uint p); try congruence; simpl; eauto.
  - rewrite Itoa_negative. eauto.
Qed.

Lemma parse_value_number (fuel : nat) (c : ascii) (rest lit r : string) :
  json.number_start c = true ->
  json.scan_number (String c rest) = Some (lit, r) ->
  json.parse_value (S fuel) (String c rest) = Some (json.Number lit, r).
Proof.
  intros Hc Hs.
  destruct (number_start_tests c Hc) as (Hsp & Hn & Ht & Hf & Hq).
  cbn [json.parse_value json.skip_space].
  rewrite Hsp, Hn, Ht, Hf, Hq, Hc, Hs. reflexivity.
Qed.

Lemma parse_value_Itoa_tail (fuel : nat) (v : Z) (c : ascii) (r : string) :
  delimiter c = true ->
  json.parse_value (S fuel) (strconv.Itoa v ++ String c r)
    = Some (json.Number (strconv.Itoa v), String c r).
Proof.
  intros Hc. pose proof (scan_number_Itoa_tail v c r Hc) as Hs.
  destruct (Itoa_head v) as (c0 & r0 & E & Hc0).
  rewrite E in *. simpl in *.
  now apply parse_value_number.
Qed.

Lemma parse_elems_step (fuel : nat) (s : string) :
  json.parse_elems (S fuel) s =
    match json.parse_value fuel s with
    | None => None
    | Some (v, r) =>
        match json.skip_space r with
        | String "]" r' => Some ([v], r')
        | String "," r' =>
            match json.parse_elems fuel r' with
            | Some (vs, r'') => Some (v :: vs, r'')
            | None => None
            end
        | _ => None
        end
    end.
Proof. reflexivity. Qed.

Lemma parse_elems_ints (l : list Z) :
  forall (v : Z) (fuel : nat) (tail : string),
    (length l < fuel)%nat ->
    json.parse_elems (S (S fuel))
      (String.concat "," (map strconv.Itoa (v :: l)) ++ String "]" tail)
    = Some (map number_of (v :: l), tail).
Proof.
  induction l as [| v' l IH]; intros v fuel tail Hf.
  - simpl String.concat.
    rewrite parse_elems_step, parse_value_Itoa_tail by reflexivity.
    reflexivity.
  - change (String.concat "," (map strconv.Itoa (v :: v' :: l)))
      with (strconv.Itoa v ++
            String "," (String.concat "," (map strconv.Itoa (v' :: l)))).
    rewrite append_assoc.
    change (String "," (String.concat "," (map strconv.Itoa (v' :: l)))
            ++ String "]" tail)
      with (String ","
              (String.concat "," (map strconv.Itoa (v' :: l))
               ++ String "]" tail)).
    rewrite parse_elems_step, parse_value_Itoa_tail by reflexivity.
    cbn [json.skip_space json.is_space].
    destruct fuel as [| fuel']; [simpl in Hf; lia |].
    rewrite IH by (simpl in Hf; lia).
    reflexivity.
Qed.

Lemma parse_value_array (fuel : nat) (c : ascii) (rest : string) :
  json.number_start c = true ->
  json.parse_value (S fuel) (String "[" (String c rest)) =
    match json.parse_elems fuel (String c rest) with
    | Some (vs, r) => Some (json.Array vs, r)
    | None => None
    end.
Proof.
  destruct c as [[|] [|] [|] [|] [|] [|] [|] [|]]; try discriminate;
    reflexivity.
Qed.

Lemma length_append (s1 s2 : string) :
  String.length (s1 ++ s2) = (String.length s1 + String.length s2)%nat.
Proof. induction s1; simpl; congruence. Qed.

Lemma length_concat_Itoa (l : list Z) :
  (length l <= String.length (String.concat "," (map strconv.Itoa l)))%nat.
Proof.
  induction l as [| v l IH]; [simpl; lia |].
  destruct (Itoa_head v) as (c & r & E & _).
  destruct l as [| v' l].
  - simpl. rewrite E. simpl. lia.
  - change (String.concat "," (map strconv.Itoa (v :: v' :: l)))
      with (strconv.Itoa v ++
            String "," (String.concat "," (map strconv.Itoa (v' :: l)))).
    rewrite length_append, E. simpl String.length in *. simpl length in *.
    lia.
Qed.

Lemma parse_array_ints (v : Z) (l : list Z) :
  json.parse ("[" ++ String.concat "," (map strconv.Itoa (v :: l)) ++ "]")
  = Some (json.Array (map number_of (v :: l))).
Proof.
  unfold json.parse.
  set (body := String.concat "," (map strconv.Itoa (v :: l))).
  pose proof (length_concat_Itoa (v :: l)) as Hlen. fold body in Hlen.
  simpl length in Hlen.
  assert (Hh : exists c r, body ++ "]" = String c r
                           /\ json.number_start c = true).
  { unfold body. destruct (Itoa_head v) as (c & r & E & Hc).
    destruct l as [| v' l].
    - simpl. rewrite E. simpl. eauto.
    - change (String.concat "," (map strconv.Itoa (v :: v' :: l)))
        with (strconv.Itoa v ++
              String "," (String.concat "," (map strconv.Itoa (v' :: l)))).
      rewrite E. simpl. eauto. }
  destruct Hh as (c & r & E & Hc).
  change ("[" ++ body ++ "]") with (String "[" (body ++ "]")).
  simpl String.length. rewrite length_append. simpl String.length.
  replace (2 * S (String.length body + 1) + 2)%nat
    with (S (S (S (2 * String.length body + 3)))) by lia.
  rewrite E, parse_value_array by exact Hc. rewrite <- E.
  unfold body. rewrite parse_elems_ints by (fold body; lia).
  reflexivity.
Qed.

Lemma decode_elems_ints (l : list int) :
  Forall int_range l ->
  forall old, decode_elems (map number_of l) old = (l, nil_error).
Proof.
  induction 1 as [| v l Hv _ IH]; intros old; [reflexivity |].
  simpl. rewrite (ParseInt_Itoa v Hv), IH. reflexivity.
Qed.

Lemma json_slice_roundtrip (l : list int) (cur : slice int) :
  Forall int_range l ->
  json_Unmarshal (fst (json_Marshal (mk_slice l))) cur
    = (mk_slice l, nil_error).
Proof.
  intros Hl. destruct l as [| v l]; [reflexivity |].
  change (json_Unmarshal (fst (json_Marshal (mk_slice (v :: l)))) cur)
    with (match json.parse ("[" ++ String.concat ","
                                     (map strconv.Itoa (v :: l)) ++ "]") with
          | None => (cur, Some SyntaxError)
          | Some j => decode_slice_int j cur
          end).
  rewrite parse_array_ints. unfold decode_slice_int.
  now rewrite decode_elems_ints.
Qed.

(** X21.  For [Optional[[]int]] the round trip through JSON loses the nil
    slice and nothing else.  [Some] of a slice of 64-bit numbers always
    serializes and deserializes without error; it comes back as itself when
    the slice is not nil, empty slices included, and as an absent Optional
    when it is nil; so the result [Equals] the original exactly when the
    slice is not nil. *)
Theorem roundtrip_Optional_slice (s : slice int)
    (target : optional.Optional (slice int)) :
  Forall int_range (elems_of s) ->
  snd (roundtrip (optional.Some s) target) = nil_error /\
  (s <> nil_slice -> fst (roundtrip (optional.Some s) target)
                     = optional.Some s) /\
  (s = nil_slice ->
     optional.IsEmpty (fst (roundtrip (optional.Some s) target)) = true) /\
  (optional.Equals (fst (roundtrip (optional.Some s) target))
     (optional.Some s) = true <-> s <> nil_slice).
Proof.
  intros Hs. destruct s as [| l].
  - repeat split; try discriminate; try congruence.
  - assert (R : roundtrip (optional.Some (mk_slice l)) target
                = (optional.Some (mk_slice l), nil_error)).
    { unfold roundtrip. rewrite MarshalJSON_Some.
      pose proof (json_slice_roundtrip l zero Hs) as Hu.
      destruct (json_Marshal (mk_slice l)) as [data err] eqn:Hm.
      assert (err = nil_error /\ data <> "null") as [-> Hd].
      { injection Hm as <- <-. split; [reflexivity | discriminate]. }
      simpl in *. now apply UnmarshalJSON_success. }
    rewrite R. simpl. repeat split; try discriminate.
    intros _. apply Equals_present; reflexivity.
Qed.

Lemma roundtrip_Optional_slice_witness :
  Forall int_range [1; -2; 3]%Z /\
  roundtrip (optional.Some (mk_slice [1; -2; 3]%Z)) (optional.None (slice int))
    = (optional.Some (mk_slice [1; -2; 3]%Z), nil_error).
Proof.
  assert (H : Forall int_range (elems_of (mk_slice [1; -2; 3]%Z)))
    by (repeat constructor; unfold int_range; lia).
  split; [exact H |].
  destruct (roundtrip_Optional_slice (mk_slice [1; -2; 3]%Z)
              (optional.None (slice int)) H) as (He & Hf & _).
  specialize (Hf ltac:(discriminate)).
  destruct (roundtrip _ _) as [o e]. simpl in He, Hf. now subst.
Defined.

End SliceCodec.
